(** * v8pp class wrapper registry: a shallow embedding

    The registry of wrapped C++ classes ([v8pp::class_<T, Traits>]) keeps,
    per isolate, one class descriptor per wrapped type, the Instance Table of
    the objects wrapped for script, the single base-class link used for
    pointer adjustment, and the ownership traits [raw_ptr_traits] and
    [shared_ptr_traits].  The header that implements it ([v8pp/class.hpp]) is
    not part of [src/]; only its tests ([test/test_class.cpp]) and the module
    assembler ([v8pp/module.hpp]) are.  The registry below is therefore
    modelled from the specification of the library, and the class layouts,
    bindings and scripts are taken from the tests. *)

From stdpp Require Import base gmap list strings fin_maps.
From Stdlib Require Import ZArith.

Open Scope Z_scope.

(* ------------------------------------------------------------------ *)
(** ** Identities, errors, native memory *)

(** A wrapped C++ type is identified by its name ([string]); native
    addresses and script-side wrapper handles are [nat]s. *)

(** Modelled from the spec: the two ownership traits of [class_<T, Traits>]. *)
Inductive traits := raw_ptr_traits | shared_ptr_traits.

(** Modelled from the spec: Failure kinds of the registry.  [NoConstructor] and the two last ones
    are the script-visible failures of a [new] on a type bound without a
    constructor and of a member access that does not resolve. *)
Inductive error :=
| AlreadyRegistered
| AlreadyLinked
| UnregisteredType
| InstanceNotTracked
| ConversionError
| NoConstructor.

#[global] Instance error_eq_dec : EqDecision error.
Proof. solve_decision. Defined.
#[global] Instance traits_eq_dec : EqDecision traits.
Proof. solve_decision. Defined.

(** Native memory ([gmap nat Z]): one integer per word; a C++ object of
    [n] words at address [p] occupies [p], [p+1], ..., [p+n-1]. *)

Definition read (m : gmap nat Z) (a : nat) : Z := default 0 (m !! a).

(** A native entry point bound as a method, getter or setter: it receives
    the memory, the (already adjusted) [this] pointer and the arguments,
    and returns the new memory and the result ([None]: argument conversion
    failed). *)
Definition native_fn := gmap nat Z -> nat -> list Z -> option (gmap nat Z * Z).

(** C++ member pointer conversion: a member of a base class placed at
    offset [off] inside the derived class, used on a derived object. *)
Definition adjust (off : nat) (f : native_fn) : native_fn :=
  fun m p args => f m (p + off)%nat args.

(** Modelled from the spec: One named binding of a class descriptor ([const_], [var],
    [property], [function] of [class_]). *)
Inductive binding :=
| BConst (v : Z)
| BField (off : nat)
| BProperty (get : native_fn) (set : option native_fn)
| BMethod (f : native_fn).

(** Modelled from the spec: a Class Descriptor: ownership traits, constructor,
    named bindings and the optional base link (base type, offset). *)
Record descriptor := mkDescriptor {
  d_traits : traits;
  d_ctor : option (list Z -> option (list Z));
  d_bindings : list (string * binding);
  d_base : option (string * nat)
}.

(** Modelled from the spec: the descriptor of a freshly registered type. *)
Definition empty_descriptor (tr : traits) : descriptor :=
  mkDescriptor tr None [] None.

(** Modelled from the spec: An Instance Table entry: the script handle, whether the handle is
    strong, and whether the entry holds an ownership share. *)
Record entry := mkEntry {
  e_handle : nat;
  e_strong : bool;
  e_owns : bool
}.

(** Modelled from the spec: The per-isolate state.  The Instance Tables of all descriptors are kept
    in one map keyed by (type, instance); [instances !! (t, p)] is the entry
    of [p] in the table of [t]. *)
Record state := mkState {
  registry : gmap string descriptor;
  instances : gmap (string * nat) entry;
  wrappers : gmap nat (string * nat);
  reachable : gset nat;
  mem : gmap nat Z;
  live : gset nat;
  refs : gmap nat nat;
  dtor_log : list nat;
  next_ptr : nat;
  next_handle : nat
}.

Definition init : state :=
  mkState ∅ ∅ ∅ ∅ ∅ ∅ ∅ [] 1 1.

Definition set_registry (r : gmap string descriptor) (s : state) : state :=
  mkState r (instances s) (wrappers s) (reachable s) (mem s) (live s)
    (refs s) (dtor_log s) (next_ptr s) (next_handle s).
Definition set_tables (i : gmap (string * nat) entry) (w : gmap nat (string * nat))
    (nh : nat) (s : state) : state :=
  mkState (registry s) i w (reachable s) (mem s) (live s)
    (refs s) (dtor_log s) (next_ptr s) nh.
Definition set_reachable (rs : gset nat) (s : state) : state :=
  mkState (registry s) (instances s) (wrappers s) rs (mem s) (live s)
    (refs s) (dtor_log s) (next_ptr s) (next_handle s).
Definition set_mem (m : gmap nat Z) (s : state) : state :=
  mkState (registry s) (instances s) (wrappers s) (reachable s) m (live s)
    (refs s) (dtor_log s) (next_ptr s) (next_handle s).
Definition set_heap (l : gset nat) (rc : gmap nat nat) (log : list nat) (s : state) : state :=
  mkState (registry s) (instances s) (wrappers s) (reachable s) (mem s) l
    rc log (next_ptr s) (next_handle s).

(* ------------------------------------------------------------------ *)
(** ** A state and exception monad

    A C++ exception leaves the registry in the state it had when it was
    thrown; [Err e s] carries that state. *)

Inductive result (A : Type) :=
| Ok (a : A) (s : state)
| Err (e : error) (s : state).
Arguments Ok {A}.
Arguments Err {A}.

Definition M (A : Type) := state -> result A.

Definition ret {A} (a : A) : M A := fun s => Ok a s.
Definition throw {A} (e : error) : M A := fun s => Err e s.
Definition bind {A B} (m : M A) (k : A -> M B) : M B := fun s =>
  match m s with
  | Ok a s' => k a s'
  | Err e s' => Err e s'
  end.
Definition get : M state := fun s => Ok s s.
Definition modify (f : state -> state) : M unit := fun s => Ok tt (f s).

Notation "x <- m ;; k" := (bind m (fun x => k))
  (at level 100, m at next level, right associativity).
Notation "m ;;; k" := (bind m (fun _ => k))
  (at level 100, right associativity).

Definition final_state {A} (r : result A) : state :=
  match r with Ok _ s => s | Err _ s => s end.

(* ------------------------------------------------------------------ *)
(** ** Class descriptors: registration and bindings *)

(** Modelled from the spec: the descriptor of [t]; an unregistered type is an error. *)
Definition find_descriptor (t : string) : M descriptor := fun s =>
  match registry s !! t with
  | Some d => Ok d s
  | None => Err UnregisteredType s
  end.

(** Modelled from the spec: replacing the descriptor of [t]. *)
Definition update_descriptor (t : string) (d : descriptor) : M unit :=
  modify (fun s => set_registry (<[t := d]> (registry s)) s).

(** Modelled from the spec: [class_<T, Traits> cls(isolate)]: at most one descriptor per type. *)
Definition register (t : string) (tr : traits) : M unit := fun s =>
  match registry s !! t with
  | Some _ => Err AlreadyRegistered s
  | None => Ok tt (set_registry (<[t := empty_descriptor tr]> (registry s)) s)
  end.

(** Modelled from the spec: [cls.ctor(...)]: the constructor gives the initial words of the object. *)
Definition bind_ctor (t : string) (c : list Z -> option (list Z)) : M unit :=
  d <- find_descriptor t ;;
  update_descriptor t (mkDescriptor (d_traits d) (Some c) (d_bindings d) (d_base d)).

(** Modelled from the spec: [cls.const_], [cls.var], [cls.property], [cls.function]. *)
Definition bind_member (t name : string) (b : binding) : M unit :=
  d <- find_descriptor t ;;
  update_descriptor t
    (mkDescriptor (d_traits d) (d_ctor d) (d_bindings d ++ [(name, b)]) (d_base d)).

(** Modelled from the spec: [cls.inherit<Base>()]: the single base link, with the offset of the
    base subobject inside the derived object. *)
Definition link_base (t base : string) (off : nat) : M unit :=
  d <- find_descriptor t ;;
  match d_base d with
  | Some _ => throw AlreadyLinked
  | None =>
      _ <- find_descriptor base ;;
      update_descriptor t
        (mkDescriptor (d_traits d) (d_ctor d) (d_bindings d) (Some (base, off)))
  end.

(** Modelled from the spec: the ownership traits of the descriptor of [t]. *)
Definition traits_of (t : string) (s : state) : traits :=
  default raw_ptr_traits (d_traits <$> registry s !! t).

(* ------------------------------------------------------------------ *)
(** ** Native objects and ownership traits *)

Fixpoint write_cells (m : gmap nat Z) (a : nat) (cells : list Z) : gmap nat Z :=
  match cells with
  | [] => m
  | c :: cs => write_cells (<[a := c]> m) (S a) cs
  end.

(** Modelled from the spec: [new T(args)]: a fresh address, the object's words written there. *)
Definition alloc (cells : list Z) : M nat := fun s =>
  let p := next_ptr s in
  Ok p (mkState (registry s) (instances s) (wrappers s) (reachable s)
          (write_cells (mem s) p cells) ({[p]} ∪ live s) (refs s) (dtor_log s)
          (p + S (length cells))%nat (next_handle s)).

(** Modelled from the spec: [delete p]: the destructor runs; every run is recorded. *)
Definition free_object (p : nat) (s : state) : state :=
  set_heap (live s ∖ {[p]}) (delete p (refs s)) (dtor_log s ++ [p]) s.

(** Modelled from the spec: Acquiring and releasing one share of a [shared_ptr]; the object is
    freed when the last share goes. *)
Definition take_share (p : nat) (s : state) : state :=
  set_heap (live s) (<[p := S (default 0%nat (refs s !! p))]> (refs s)) (dtor_log s) s.

(** Modelled from the spec: dropping one share; the last one frees the object. *)
Definition release_share (p : nat) (s : state) : state :=
  match refs s !! p with
  | Some n =>
      if decide (n <= 1)%nat then free_object p s
      else set_heap (live s) (<[p := pred n]> (refs s)) (dtor_log s) s
  | None => s
  end.

(** Modelled from the spec: [Traits::create<T>(args)] called by native code: under
    [shared_ptr_traits] the caller holds the first share. *)
Definition native_create (tr : traits) (cells : list Z) : M nat :=
  p <- alloc cells ;;
  match tr with
  | raw_ptr_traits => ret p
  | shared_ptr_traits => modify (take_share p) ;;; ret p
  end.

(** Modelled from the spec: [Traits::destroy] as applied by the registry when it releases an
    entry: [raw_ptr_traits] deletes the object, [shared_ptr_traits]
    releases the share the entry holds, if any. *)
Definition trait_destroy (tr : traits) (owns : bool) (p : nat) (s : state) : state :=
  match tr with
  | raw_ptr_traits => free_object p s
  | shared_ptr_traits => if owns then release_share p s else s
  end.

(* ------------------------------------------------------------------ *)
(** ** Instance Tables *)

(** Modelled from the spec: Removing an entry from its table; its handle becomes empty. *)
Definition drop_entry (k : string * nat) (e : entry) (s : state) : state :=
  set_tables (delete k (instances s)) (delete (e_handle e) (wrappers s)) (next_handle s) s.

(** Modelled from the spec: Removing an entry and destroying its object under the traits of its
    descriptor (explicit destroy, collector finalizer, [destroy]). *)
Definition release_entry (s : state) (ke : (string * nat) * entry) : state :=
  trait_destroy (traits_of ke.1.1 s) (e_owns ke.2) ke.1.2 (drop_entry ke.1 ke.2 s).

(** Modelled from the spec: Wrapping [p] for script under [t]: an existing entry is reused;
    otherwise a fresh handle is made, held by the caller, and an owning
    entry of a [shared_ptr_traits] class takes a share. *)
Definition wrap_instance (t : string) (p : nat) (strong owns : bool) : M nat := fun s =>
  match instances s !! (t, p) with
  | Some e => Ok (e_handle e) s
  | None =>
      let h := next_handle s in
      let s1 := set_tables (<[(t, p) := mkEntry h strong owns]> (instances s))
                  (<[h := (t, p)]> (wrappers s)) (S h) s in
      let s2 := set_reachable ({[h]} ∪ reachable s1) s1 in
      Ok h (match traits_of t s, owns with
            | shared_ptr_traits, true => take_share p s2
            | _, _ => s2
            end)
  end.

(** Modelled from the spec: [class_<T>::create_object(isolate, args...)] and script [new T(args)]:
    construct and wrap with a weak, owning entry. *)
Definition create_object (t : string) (args : list Z) : M nat :=
  d <- find_descriptor t ;;
  match d_ctor d with
  | None => throw NoConstructor
  | Some c =>
      match c args with
      | None => throw ConversionError
      | Some cells => p <- alloc cells ;; wrap_instance t p false true
      end
  end.

(** Modelled from the spec: [class_<T>::reference_external(isolate, p)]: strong, non-owning. *)
Definition reference_external (t : string) (p : nat) : M nat :=
  _ <- find_descriptor t ;; wrap_instance t p true false.

(** Modelled from the spec: [class_<T>::import_external(isolate, p)]: weak, owning. *)
Definition import_external (t : string) (p : nat) : M nat :=
  _ <- find_descriptor t ;; wrap_instance t p false true.

(** Modelled from the spec: [class_<T>::unreference_external(isolate, p)]: the entry goes and its
    handle is emptied; the object is left to the caller. *)
Definition unreference_external (t : string) (p : nat) : M unit :=
  _ <- find_descriptor t ;;
  fun s => match instances s !! (t, p) with
           | None => Err InstanceNotTracked s
           | Some e => Ok tt (drop_entry (t, p) e s)
           end.

(** Modelled from the spec: [class_<T>::destroy_object(isolate, p)]. *)
Definition destroy_object (t : string) (p : nat) : M unit :=
  _ <- find_descriptor t ;;
  fun s => match instances s !! (t, p) with
           | None => Err InstanceNotTracked s
           | Some e => Ok tt (release_entry s ((t, p), e))
           end.

(** Modelled from the spec: The entries of the table of [t]. *)
Definition table_of (t : string) (s : state) : list ((string * nat) * entry) :=
  map_to_list (filter (fun ke : (string * nat) * entry => ke.1.1 = t) (instances s)).

(** Modelled from the spec: [class_<T>::destroy(isolate)]: every entry of the table of [t]. *)
Definition destroy_all (t : string) : M unit :=
  _ <- find_descriptor t ;;
  modify (fun s => foldl release_entry s (table_of t s)).

(** Modelled from the spec: Entries a collector pass finalizes: weak, with an unreachable handle. *)
Definition collectible (rs : gset nat) (e : entry) : Prop :=
  e_strong e = false /\ e_handle e ∉ rs.

#[global] Instance collectible_dec rs e : Decision (collectible rs e).
Proof. unfold collectible. apply _. Defined.

(** Modelled from the spec: the entries a collector pass finalizes. *)
Definition collector_victims (s : state) : list ((string * nat) * entry) :=
  map_to_list (filter (fun ke : (string * nat) * entry => collectible (reachable s) ke.2)
                 (instances s)).

(** Modelled from the spec: A full collector pass: the weak-handle finalizer of every collectible
    entry runs, with the semantics of [destroy_object]. *)
Definition collector_pass (s : state) : state :=
  foldl release_entry s (collector_victims s).

(** Modelled from the spec: Script roots: the script starts or stops referencing a handle. *)
Definition script_retain (h : nat) : M unit :=
  modify (fun s => set_reachable ({[h]} ∪ reachable s) s).
(** Modelled from the spec: the script stops referencing a handle. *)
Definition script_release (h : nat) : M unit :=
  modify (fun s => set_reachable (reachable s ∖ {[h]}) s).

(* ------------------------------------------------------------------ *)
(** ** Unwrapping and converting back to script *)

(** Modelled from the spec: Walking the base links from [from] up to [to], adjusting the pointer
    by each link's offset. *)
Fixpoint cast_to (fuel : nat) (reg : gmap string descriptor) (from to : string)
    (p : nat) : option nat :=
  if decide (from = to) then Some p
  else match fuel with
       | O => None
       | S fuel' =>
           match reg !! from with
           | Some d =>
               match d_base d with
               | Some (b, off) => cast_to fuel' reg b to (p + off)%nat
               | None => None
               end
           | None => None
           end
       end.

(** Modelled from the spec: [class_<T>::unwrap_object(isolate, handle)] (and [from_v8<T*>]): the
    native pointer, or null ([None]) when the handle holds no wrapper. *)
Definition unwrap_object (t : string) (h : nat) : M (option nat) :=
  _ <- find_descriptor t ;;
  fun s => match wrappers s !! h with
           | None => Ok None s
           | Some (t', p) => Ok (cast_to (size (registry s)) (registry s) t' t p) s
           end.

(** Modelled from the spec: [class_<T>::find_object(isolate, p)] (and [to_v8] of a wrapped
    pointer): the handle of the entry of [p]. *)
Definition find_object (t : string) (p : nat) : M nat :=
  _ <- find_descriptor t ;;
  fun s => match instances s !! (t, p) with
           | Some e => Ok (e_handle e) s
           | None => Err InstanceNotTracked s
           end.

(* ------------------------------------------------------------------ *)
(** ** Member access from script *)

(** Modelled from the spec: the first binding named [name]. *)
Fixpoint find_binding (name : string) (l : list (string * binding)) : option binding :=
  match l with
  | [] => None
  | (n, b) :: l' => if decide (n = name) then Some b else find_binding name l'
  end.

(** Modelled from the spec: Member lookup: the bindings of the object's class first, then those
    of its base, with [this] adjusted by the link's offset. *)
Fixpoint resolve (fuel : nat) (reg : gmap string descriptor) (t name : string)
    (p : nat) : option (binding * nat) :=
  match reg !! t with
  | None => None
  | Some d =>
      match find_binding name (d_bindings d) with
      | Some b => Some (b, p)
      | None =>
          match fuel, d_base d with
          | S fuel', Some (b, off) => resolve fuel' reg b name (p + off)%nat
          | _, _ => None
          end
      end
  end.

(** Modelled from the spec: member lookup on the object held by handle [h]. *)
Definition resolve_member (h : nat) (name : string) (s : state) : option (binding * nat) :=
  match wrappers s !! h with
  | Some (t, p) => resolve (size (registry s)) (registry s) t name p
  | None => None
  end.

(** Modelled from the spec: Reading [obj.name]. *)
Definition get_member (h : nat) (name : string) : M Z := fun s =>
  match resolve_member h name s with
  | Some (BConst v, _) => Ok v s
  | Some (BField off, q) => Ok (read (mem s) (q + off)) s
  | Some (BProperty g _, q) =>
      match g (mem s) q [] with
      | Some (m', v) => Ok v (set_mem m' s)
      | None => Err ConversionError s
      end
  | _ => Err ConversionError s
  end.

(** Modelled from the spec: Writing [obj.name = v]; a read-only member ignores the write. *)
Definition set_member (h : nat) (name : string) (v : Z) : M unit := fun s =>
  match resolve_member h name s with
  | Some (BField off, q) => Ok tt (set_mem (<[(q + off)%nat := v]> (mem s)) s)
  | Some (BProperty _ (Some st), q) =>
      match st (mem s) q [v] with
      | Some (m', _) => Ok tt (set_mem m' s)
      | None => Err ConversionError s
      end
  | Some _ => Ok tt s
  | None => Err ConversionError s
  end.

(** Modelled from the spec: Calling [obj.name(args)]. *)
Definition call_member (h : nat) (name : string) (args : list Z) : M Z := fun s =>
  match resolve_member h name s with
  | Some (BMethod f, q) =>
      match f (mem s) q args with
      | Some (m', v) => Ok v (set_mem m' s)
      | None => Err ConversionError s
      end
  | _ => Err ConversionError s
  end.

(* ------------------------------------------------------------------ *)
(** ** Running scripts *)

Definition value_of {A} (r : result A) : option A :=
  match r with Ok a _ => Some a | Err _ _ => None end.
Definition error_of {A} (r : result A) : option error :=
  match r with Ok _ _ => None | Err e _ => Some e end.

(** [check_ex]: run [m], catching its failure. *)
Definition attempt {A} (m : M A) : M (option error) := fun s =>
  match m s with
  | Ok _ s' => Ok None s'
  | Err e s' => Ok (Some e) s'
  end.

(* ------------------------------------------------------------------ *)
(** ** Native entry points of the test classes *)

(** Reading, writing and adding to the word at offset [off] of [this]. *)
Definition field_get (off : nat) : native_fn := fun m p _ =>
  Some (m, read m (p + off)%nat).
Definition field_set (off : nat) : native_fn := fun m p args =>
  match args with
  | v :: _ => Some (<[(p + off)%nat := v]> m, 0)
  | [] => None
  end.
Definition field_add (off : nat) : native_fn := fun m p args =>
  match args with
  | x :: _ => Some (m, read m (p + off)%nat + x)
  | [] => None
  end.

(** [struct Xbase { int var = 1; ... }; struct X : Xbase {};
    struct Y : X { explicit Y(int x) { var = x; } }]: one word each. *)
Definition Xbase_var : nat := 0.
Definition X_get : native_fn := field_get Xbase_var.
Definition X_set : native_fn := field_set Xbase_var.
Definition X_fun : native_fn := field_add Xbase_var.

Definition create_X (args : list Z) : option (list Z) := Some [1].
Definition Y_ctor (args : list Z) : option (list Z) :=
  match args with
  | [x] => Some [x]
  | _ => None
  end.

(** The bindings of [X_class] and [Y_class] in [test_class_]. *)
Definition bind_X : M unit :=
  bind_ctor "X" create_X ;;;
  bind_member "X" "konst" (BConst 99) ;;;
  bind_member "X" "var" (BField Xbase_var) ;;;
  bind_member "X" "rprop" (BProperty X_get None) ;;;
  bind_member "X" "wprop" (BProperty X_get (Some X_set)) ;;;
  bind_member "X" "wprop2" (BProperty X_get (Some X_set)) ;;;
  bind_member "X" "fun1" (BMethod X_fun) ;;;
  bind_member "X" "fun2" (BMethod X_fun) ;;;
  bind_member "X" "fun3" (BMethod X_fun) ;;;
  bind_member "X" "fun4" (BMethod X_fun).

Definition setup_XY (tr : traits) : M unit :=
  register "X" tr ;;; bind_X ;;;
  register "Y" tr ;;; link_base "Y" "X" 0 ;;; bind_ctor "Y" Y_ctor.

(** [x = new X(); x.var += x.konst] *)
Definition script_x_object : M Z :=
  x <- create_object "X" [] ;;
  v <- get_member x "var" ;;
  k <- get_member x "konst" ;;
  set_member x "var" (v + k) ;;;
  get_member x "var".

(** [y = new Y(-100); y.konst + y.var] *)
Definition script_y_object : M Z :=
  y <- create_object "Y" [-100] ;;
  k <- get_member y "konst" ;;
  v <- get_member y "var" ;;
  ret (k + v).

(** Lines 105-116 of the test: the three expected failures. *)
Definition expected_failures : M (list (option error)) :=
  e1 <- attempt (register "X" raw_ptr_traits) ;;
  e2 <- attempt (link_base "Y" "X" 0) ;;
  e3 <- attempt (find_object "Z" 0) ;;
  ret [e1; e2; e3].

(** [Y::instance_count]: the live native objects (the lifecycle script
    below allocates no other objects). *)
Definition instance_count : M nat := fun s => Ok (size (live s)) s.

(** Copying an [object_pointer_type] in native code: a [shared_ptr] copy
    is one more share, a raw pointer copy is nothing. *)
Definition native_copy (tr : traits) (p : nat) : M unit :=
  match tr with
  | raw_ptr_traits => ret tt
  | shared_ptr_traits => modify (take_share p)
  end.

(** [for (i = 0; i < n; ++i) { y = new Y(i); ... }]: each new object
    replaces the previous one in the script variable [y]. *)
Fixpoint new_Y_loop (prev : nat) (i : Z) (n : nat) : M nat :=
  match n with
  | O => ret prev
  | S n' =>
      y <- create_object "Y" [i] ;;
      script_release prev ;;;
      new_Y_loop y (i + 1) n'
  end.

(** Lines 136-197 of [test_class_]: the observed instance counts and the
    round-trip checks. *)
Definition lifecycle_test (tr : traits) : M (list nat * list bool) :=
  setup_XY tr ;;;
  y0 <- create_object "Y" [-100] ;;
  y1 <- native_create tr [-1] ;;
  y1_obj <- reference_external "Y" y1 ;;
  u1 <- unwrap_object "Y" y1_obj ;;
  f1 <- find_object "Y" y1 ;;
  y2 <- native_create tr [-2] ;;
  y2_obj <- import_external "Y" y2 ;;
  u2 <- unwrap_object "Y" y2_obj ;;
  f2 <- find_object "Y" y2 ;;
  y3_obj <- create_object "Y" [-3] ;;
  u3 <- unwrap_object "Y" y3_obj ;;
  let y3 := default 0%nat u3 in
  native_copy tr y3 ;;;
  f3 <- find_object "Y" y3 ;;
  ylast <- new_Y_loop y0 0 10 ;;
  c1 <- instance_count ;;
  script_release ylast ;;;
  unreference_external "Y" y1 ;;;
  u1' <- unwrap_object "Y" y1_obj ;;
  e1 <- attempt (find_object "Y" y1) ;;
  script_release y1_obj ;;;
  destroy_object "Y" y2 ;;;
  u2' <- unwrap_object "Y" y2_obj ;;
  script_release y2_obj ;;;
  destroy_object "Y" y3 ;;;
  u3' <- unwrap_object "Y" y3_obj ;;
  script_release y3_obj ;;;
  modify collector_pass ;;;
  c2 <- instance_count ;;
  destroy_all "Y" ;;;
  c3 <- instance_count ;;
  destroy_all "Y" ;;;
  c4 <- instance_count ;;
  ret ([c1; c2; c3; c4],
       [bool_decide (u1 = Some y1); bool_decide (f1 = y1_obj);
        bool_decide (u2 = Some y2); bool_decide (f2 = y2_obj);
        bool_decide (f3 = y3_obj);
        bool_decide (u1' = None); bool_decide (e1 = Some InstanceNotTracked);
        bool_decide (u2' = None); bool_decide (u3' = None)]).

(* ------------------------------------------------------------------ *)
(** ** [test_multiple_inheritance]

    [struct A { int x; }; struct B { int x; }; struct C : A, B { int x; }]:
    the A subobject at offset 0, the B subobject at offset 1, and C's own
    [x] at offset 2. *)
Definition A_x : nat := 0.
Definition B_x : nat := 0.
Definition C_A : nat := 0.
Definition C_B : nat := 1.
Definition C_x : nat := 2.

(** [A::f], [A::set_f], [A::z]; [B::g], [B::set_g], [B::z]; [C::h],
    [C::set_h], [C::z], each on its own [this]. *)
Definition A_f : native_fn := field_get A_x.
Definition A_set_f : native_fn := field_set A_x.
Definition A_z : native_fn := field_get A_x.
Definition B_g : native_fn := field_get B_x.
Definition B_set_g : native_fn := field_set B_x.
Definition B_z : native_fn := field_get B_x.
Definition C_h : native_fn := field_get C_x.
Definition C_set_h : native_fn := field_set C_x.
Definition C_z : native_fn := field_get C_x.

(** [C() : x(3)] after [A() : x(1)] and [B() : x(2)]. *)
Definition C_ctor (args : list Z) : option (list Z) :=
  match args with
  | [] => Some [1; 2; 3]
  | _ => None
  end.

(** [B_class] and [C_class]: only B is linked; A's members are bound on C
    through A's own member pointers, converted to members of C
    ([&A::x] and [&C::f] adjust by the A subobject, [&C::g] by the B one). *)
Definition setup_ABC (tr : traits) : M unit :=
  register "B" tr ;;;
  bind_member "B" "xB" (BField B_x) ;;;
  bind_member "B" "zB" (BMethod B_z) ;;;
  bind_member "B" "g" (BMethod B_g) ;;;
  register "C" tr ;;;
  link_base "C" "B" C_B ;;;
  bind_ctor "C" C_ctor ;;;
  bind_member "C" "xA" (BField (C_A + A_x)) ;;;
  bind_member "C" "xC" (BField C_x) ;;;
  bind_member "C" "zA" (BMethod (adjust C_A A_z)) ;;;
  bind_member "C" "zC" (BMethod C_z) ;;;
  bind_member "C" "f" (BMethod (adjust C_A A_f)) ;;;
  bind_member "C" "h" (BMethod C_h) ;;;
  bind_member "C" "rF" (BProperty (adjust C_A A_f) None) ;;;
  bind_member "C" "rG" (BProperty (adjust C_B B_g) None) ;;;
  bind_member "C" "rH" (BProperty C_h None) ;;;
  bind_member "C" "F" (BProperty (adjust C_A A_f) (Some (adjust C_A A_set_f))) ;;;
  bind_member "C" "G" (BProperty (adjust C_B B_g) (Some (adjust C_B B_set_g))) ;;;
  bind_member "C" "H" (BProperty C_h (Some C_set_h)).

(** The scripts of [test_multiple_inheritance]. *)
Definition sum3 (h : nat) (get : nat -> string -> M Z) (n1 n2 n3 : string) : M Z :=
  a <- get h n1 ;; b <- get h n2 ;; c <- get h n3 ;; ret (a + b + c).
Definition call0 (h : nat) (name : string) : M Z := call_member h name [].

Definition mi_scripts : M (list Z) :=
  c <- create_object "C" [] ;;
  r1 <- sum3 c get_member "xA" "xB" "xC" ;;
  c <- create_object "C" [] ;;
  set_member c "xA" 10 ;;; set_member c "xB" 20 ;;; set_member c "xC" 30 ;;;
  r2 <- sum3 c get_member "xA" "xB" "xC" ;;
  c <- create_object "C" [] ;;
  r3 <- sum3 c call0 "f" "g" "h" ;;
  c <- create_object "C" [] ;;
  r4 <- sum3 c call0 "zA" "zB" "zC" ;;
  c <- create_object "C" [] ;;
  r5 <- sum3 c get_member "rF" "rG" "rH" ;;
  c <- create_object "C" [] ;;
  set_member c "F" 100 ;;; set_member c "G" 200 ;;; set_member c "H" 300 ;;;
  r6 <- sum3 c get_member "F" "G" "H" ;;
  ret [r1; r2; r3; r4; r5; r6].

(* ------------------------------------------------------------------ *)
(** ** Heap invariants *)


(** Every tracked instance is alive. *)
Definition tracked_live (s : state) : Prop :=
  map_Forall (fun k (_ : entry) => k.2 ∈ live s) (instances s).

(** A live object was never destroyed (addresses are not reused). *)
Definition live_not_destroyed (s : state) : Prop :=
  set_Forall (fun p => p ∉ dtor_log s) (live s).

(** An instance has at most one entry, over all Instance Tables. *)
Definition one_entry_per_instance (s : state) : Prop :=
  map_Forall (fun k (_ : entry) =>
    map_Forall (fun k' (_ : entry) => k'.2 = k.2 -> k' = k) (instances s))
    (instances s).

Definition well_formed (s : state) : Prop :=
  tracked_live s /\ live_not_destroyed s /\ one_entry_per_instance s.

#[global] Instance well_formed_dec s : Decision (well_formed s).
Proof.
  unfold well_formed, tracked_live, live_not_destroyed, one_entry_per_instance.
  apply _.
Defined.


(** The registry built by [test_multiple_inheritance]. *)
Definition mi_registry (tr : traits) : gmap string descriptor :=
  registry (final_state (setup_ABC tr init)).

(** Where each member read or written through a C instance lives: A's
    [x] in the A subobject, B's [x] in the B subobject, C's own [x]. *)
Inductive origin := FromA | FromB | FromC.
#[global] Instance origin_eq_dec : EqDecision origin.
Proof. solve_decision. Defined.

Definition origin_slot (o : origin) : nat :=
  match o with
  | FromA => C_A + A_x
  | FromB => C_B + B_x
  | FromC => C_x
  end.

Definition member_origin (n : string) : option origin :=
  if decide (n ∈ ["xA"; "zA"; "f"; "rF"; "F"]) then Some FromA
  else if decide (n ∈ ["xB"; "zB"; "g"; "rG"; "G"]) then Some FromB
  else if decide (n ∈ ["xC"; "zC"; "h"; "rH"; "H"]) then Some FromC
  else None.

(** The members of [test_multiple_inheritance] by how the scripts use them. *)
Definition mi_readable : list string := ["xA"; "xB"; "xC"; "rF"; "rG"; "rH"; "F"; "G"; "H"].
Definition mi_methods : list string := ["zA"; "zB"; "zC"; "f"; "g"; "h"].
Definition mi_writable : list string := ["xA"; "xB"; "xC"; "F"; "G"; "H"].

(** How member lookup resolves each name on a C object: the binding found
    and the adjustment of [this] (the B subobject for B's members). *)
Definition mi_resolution (n : string) : option (binding * nat) :=
  match n with
  | "xA" => Some (BField (C_A + A_x), 0%nat)
  | "xC" => Some (BField C_x, 0%nat)
  | "zA" => Some (BMethod (adjust C_A A_z), 0%nat)
  | "zC" => Some (BMethod C_z, 0%nat)
  | "f" => Some (BMethod (adjust C_A A_f), 0%nat)
  | "h" => Some (BMethod C_h, 0%nat)
  | "rF" => Some (BProperty (adjust C_A A_f) None, 0%nat)
  | "rG" => Some (BProperty (adjust C_B B_g) None, 0%nat)
  | "rH" => Some (BProperty C_h None, 0%nat)
  | "F" => Some (BProperty (adjust C_A A_f) (Some (adjust C_A A_set_f)), 0%nat)
  | "G" => Some (BProperty (adjust C_B B_g) (Some (adjust C_B B_set_g)), 0%nat)
  | "H" => Some (BProperty C_h (Some C_set_h), 0%nat)
  | "xB" => Some (BField B_x, C_B)
  | "zB" => Some (BMethod B_z, C_B)
  | "g" => Some (BMethod B_g, C_B)
  | _ => None
  end.

(* ------------------------------------------------------------------ *)
(** ** Reachable states *)

(** The operations of the registry, by native code or by a script.
    Native code may also take and drop [shared_ptr] shares of its own. *)
Inductive op :=
| op_register (t : string) (tr : traits)
| op_bind_ctor (t : string) (c : list Z -> option (list Z))
| op_bind_member (t name : string) (b : binding)
| op_link_base (t base : string) (off : nat)
| op_create (t : string) (args : list Z)
| op_reference (t : string) (p : nat)
| op_import (t : string) (p : nat)
| op_unreference (t : string) (p : nat)
| op_destroy (t : string) (p : nat)
| op_destroy_all (t : string)
| op_collect
| op_retain (h : nat)
| op_release (h : nat)
| op_get (h : nat) (name : string)
| op_set (h : nat) (name : string) (v : Z)
| op_call (h : nat) (name : string) (args : list Z)
| op_unwrap (t : string) (h : nat)
| op_find (t : string) (p : nat)
| op_native_create (tr : traits) (cells : list Z)
| op_native_share (p : nat)
| op_native_unshare (p : nat).

(** The state after an operation, whether it returned or threw. *)
Definition run_op (o : op) (s : state) : state :=
  match o with
  | op_register t tr => final_state (register t tr s)
  | op_bind_ctor t c => final_state (bind_ctor t c s)
  | op_bind_member t name b => final_state (bind_member t name b s)
  | op_link_base t base off => final_state (link_base t base off s)
  | op_create t args => final_state (create_object t args s)
  | op_reference t p => final_state (reference_external t p s)
  | op_import t p => final_state (import_external t p s)
  | op_unreference t p => final_state (unreference_external t p s)
  | op_destroy t p => final_state (destroy_object t p s)
  | op_destroy_all t => final_state (destroy_all t s)
  | op_collect => collector_pass s
  | op_retain h => final_state (script_retain h s)
  | op_release h => final_state (script_release h s)
  | op_get h name => final_state (get_member h name s)
  | op_set h name v => final_state (set_member h name v s)
  | op_call h name args => final_state (call_member h name args s)
  | op_unwrap t h => final_state (unwrap_object t h s)
  | op_find t p => final_state (find_object t p s)
  | op_native_create tr cells => final_state (native_create tr cells s)
  | op_native_share p => take_share p s
  | op_native_unshare p => release_share p s
  end.

Definition step (s s' : state) : Prop := exists o, s' = run_op o s.

(** The three ways an instance gets wrapped for script. *)
Inductive wrap_call :=
| wrap_create (t : string) (args : list Z)
| wrap_reference (t : string) (p : nat)
| wrap_import (t : string) (p : nat).

Definition run_wrap (w : wrap_call) : M nat :=
  match w with
  | wrap_create t args => create_object t args
  | wrap_reference t p => reference_external t p
  | wrap_import t p => import_external t p
  end.

(** The (type, instance) wrapped by [w] from state [s]: [create_object]
    wraps the object it allocates, at [next_ptr s]. *)
Definition wrap_target (w : wrap_call) (s : state) : string * nat :=
  match w with
  | wrap_create t _ => (t, next_ptr s)
  | wrap_reference t p => (t, p)
  | wrap_import t p => (t, p)
  end.

(** [unwrap(h) == p] and [to_script(p) == h] for type [t]. *)
Definition roundtrip (t : string) (p h : nat) (s : state) : Prop :=
  unwrap_object t h s = Ok (Some p) s /\ find_object t p s = Ok h s.

(** Every entry's handle holds a wrapper of that entry, of a registered
    type, and no handle from [next_handle] on is in use. *)
Definition coherent (s : state) : Prop :=
  map_Forall (fun k e => wrappers s !! e_handle e = Some k /\ is_Some (registry s !! k.1))
    (instances s) /\
  (forall h, (next_handle s <= h)%nat -> wrappers s !! h = None).

(* ------------------------------------------------------------------ *)
(** ** Sample states of the tests *)

(** After the class setup of [test_class_]. *)
Definition xy_state (tr : traits) : state := final_state (setup_XY tr init).

(** [x = new X()], then the script drops [x]. *)
Definition dropped_x_state (tr : traits) : state :=
  final_state ((x <- create_object "X" [] ;; script_release x) (xy_state tr)).


(** An X created by native code and referenced for script. *)
Definition referenced_x_state (tr : traits) : state :=
  final_state ((p <- native_create tr [1] ;; reference_external "X" p) (xy_state tr)).

(** [c = new C()] after the class setup of [test_multiple_inheritance]. *)
Definition c_object_state (tr : traits) : state :=
  final_state (create_object "C" [] (final_state (setup_ABC tr init))).

(** X registered with its constructor, in two operations from [init]. *)
Definition registered_x_state : state :=
  run_op (op_bind_ctor "X" create_X) (run_op (op_register "X" raw_ptr_traits) init).

(** The descriptors of X and Y after the class setup. *)
Definition X_descr (tr : traits) : descriptor :=
  default (empty_descriptor tr) (registry (xy_state tr) !! "X").
Definition Y_descr (tr : traits) : descriptor :=
  default (empty_descriptor tr) (registry (xy_state tr) !! "Y").

(* ------------------------------------------------------------------ *)
(** ** More of the fixtures of [test_class_] *)

(** The member bindings [bind_X] gives X, in order (lines 82-91 of the
    test); the three static functions bound after them are not kept. *)
Definition X_bindings : list (string * binding) :=
  [("konst", BConst 99); ("var", BField Xbase_var);
   ("rprop", BProperty X_get None);
   ("wprop", BProperty X_get (Some X_set));
   ("wprop2", BProperty X_get (Some X_set));
   ("fun1", BMethod X_fun); ("fun2", BMethod X_fun);
   ("fun3", BMethod X_fun); ("fun4", BMethod X_fun)].

Definition X_names : list string := X_bindings.*1.

(** X is registered with (at least) the members of [bind_X], in order. *)
Definition X_registered (s : state) : Prop :=
  exists d, registry s !! "X" = Some d /\ X_bindings `prefix_of` d_bindings d.

(** Handle [h] holds the X at [p]: an X, or a Y (derived from X at offset
    0, [inherit<X>()]) whose own bindings do not hide X's members. *)
Definition X_object (s : state) (h p : nat) : Prop :=
  wrappers s !! h = Some ("X", p) \/
  (wrappers s !! h = Some ("Y", p) /\
   exists dy, registry s !! "Y" = Some dy /\ d_base dy = Some ("X", 0%nat) /\
     Forall (fun n => find_binding n (d_bindings dy) = None) X_names).


(** The operations one after the other. *)
Fixpoint run_ops (os : list op) (s : state) : state :=
  match os with
  | [] => s
  | o :: os' => run_ops os' (run_op o s)
  end.

(** [setup_XY] as operations. *)
Definition setup_XY_ops (tr : traits) : list op :=
  [op_register "X" tr; op_bind_ctor "X" create_X;
   op_bind_member "X" "konst" (BConst 99); op_bind_member "X" "var" (BField Xbase_var);
   op_bind_member "X" "rprop" (BProperty X_get None);
   op_bind_member "X" "wprop" (BProperty X_get (Some X_set));
   op_bind_member "X" "wprop2" (BProperty X_get (Some X_set));
   op_bind_member "X" "fun1" (BMethod X_fun); op_bind_member "X" "fun2" (BMethod X_fun);
   op_bind_member "X" "fun3" (BMethod X_fun); op_bind_member "X" "fun4" (BMethod X_fun);
   op_register "Y" tr; op_link_base "Y" "X" 0; op_bind_ctor "Y" Y_ctor].

(** [x = new X(); y = new Y(5)] after the class setup: [x] is handle 1,
    [y] handle 2. *)
Definition xy_objects_state : state :=
  final_state ((_ <- create_object "X" [] ;; create_object "Y" [5])
                 (xy_state raw_ptr_traits)).

(* ================================================================== *)
(** * Properties *)

Example setup_then_failures :
  value_of ((setup_XY raw_ptr_traits ;;; expected_failures) init)
  = Some [Some AlreadyRegistered; Some AlreadyLinked; Some UnregisteredType].
Proof. vm_compute. reflexivity. Qed.

Example x_object_after_failures :
  value_of ((setup_XY raw_ptr_traits ;;; expected_failures ;;; script_x_object) init)
  = Some 100.
Proof. vm_compute. reflexivity. Qed.

Example y_object :
  value_of ((setup_XY shared_ptr_traits ;;; script_y_object) init) = Some (-1).
Proof. vm_compute. reflexivity. Qed.

Example lifecycle_raw :
  value_of (lifecycle_test raw_ptr_traits init)
  = Some ([14; 1; 1; 1]%nat, [true; true; true; true; true; true; true; true; true]).
Proof. vm_compute. reflexivity. Qed.

Example lifecycle_shared :
  value_of (lifecycle_test shared_ptr_traits init)
  = Some ([14; 3; 3; 3]%nat, [true; true; true; true; true; true; true; true; true]).
Proof. vm_compute. reflexivity. Qed.

Example multiple_inheritance_raw :
  value_of ((setup_ABC raw_ptr_traits ;;; mi_scripts) init)
  = Some [6; 60; 6; 6; 6; 600].
Proof. vm_compute. reflexivity. Qed.

Example multiple_inheritance_shared :
  value_of ((setup_ABC shared_ptr_traits ;;; mi_scripts) init)
  = Some [6; 60; 6; 6; 6; 600].
Proof. vm_compute. reflexivity. Qed.

(* ------------------------------------------------------------------ *)
(** ** Frame lemmas of the state updates *)

Lemma registry_drop_entry k e s : registry (drop_entry k e s) = registry s.
Proof. reflexivity. Qed.
Lemma instances_drop_entry k e s : instances (drop_entry k e s) = delete k (instances s).
Proof. reflexivity. Qed.
Lemma wrappers_drop_entry k e s :
  wrappers (drop_entry k e s) = delete (e_handle e) (wrappers s).
Proof. reflexivity. Qed.

Lemma set_heap_id s : set_heap (live s) (refs s) (dtor_log s) s = s.
Proof. destruct s; reflexivity. Qed.

(** Destroying under either traits only touches the native heap. *)
Lemma trait_destroy_heap tr owns p s :
  exists l rc lg, trait_destroy tr owns p s = set_heap l rc lg s.
Proof.
  destruct tr; simpl.
  - unfold free_object. eauto.
  - destruct owns; [| exists (live s), (refs s), (dtor_log s); by rewrite set_heap_id].
    unfold release_share. destruct (refs s !! p) as [n|].
    + case_decide; unfold free_object; eauto.
    + exists (live s), (refs s), (dtor_log s). by rewrite set_heap_id.
Qed.

Lemma release_entry_frame s ke :
  registry (release_entry s ke) = registry s /\
  instances (release_entry s ke) = delete ke.1 (instances s) /\
  wrappers (release_entry s ke) = delete (e_handle ke.2) (wrappers s) /\
  reachable (release_entry s ke) = reachable s /\
  next_handle (release_entry s ke) = next_handle s /\
  next_ptr (release_entry s ke) = next_ptr s.
Proof.
  unfold release_entry.
  destruct (trait_destroy_heap (traits_of ke.1.1 s) (e_owns ke.2) ke.1.2
              (drop_entry ke.1 ke.2 s)) as (l & rc & lg & ->).
  repeat split.
Qed.

Lemma foldl_release_registry L s :
  registry (foldl release_entry s L) = registry s.
Proof.
  revert s. induction L as [|ke L IH]; intros s; simpl; [done|].
  rewrite IH. apply release_entry_frame.
Qed.

(** After releasing the entries [L], exactly their keys are gone. *)
Lemma foldl_release_instances L s k :
  instances (foldl release_entry s L) !! k =
  (if decide (k ∈ L.*1) then None else instances s !! k).
Proof.
  revert s. induction L as [|[k' e'] L IH]; intros s; simpl.
  - done.
  - rewrite IH. destruct (release_entry_frame s (k', e')) as (_ & Hi & _).
    rewrite Hi. simpl. repeat case_decide; try set_solver.
    + assert (k = k') as -> by (apply elem_of_cons in H0; set_solver). by rewrite lookup_delete_eq.
    + rewrite lookup_delete_ne; [done | set_solver].
Qed.

(* ------------------------------------------------------------------ *)
(** ** Registration errors *)

(** C6: registering an already registered type fails with
    [AlreadyRegistered] and leaves the state, hence the descriptor and all
    bindings of the first registration, exactly as they were. *)
Theorem register_twice_fails (s : state) (t : string) (d : descriptor) (tr : traits)
    (Hreg : registry s !! t = Some d) :
  register t tr s = Err AlreadyRegistered s /\
  registry (final_state (register t tr s)) !! t = Some d.
Proof. unfold register. rewrite Hreg. split; [reflexivity | exact Hreg]. Qed.

(** C8: linking a base to a descriptor that already has one fails with
    [AlreadyLinked] and keeps the first link. *)
Theorem link_base_twice_fails (s : state) (t base base' : string) (off off' : nat)
    (d : descriptor) (Hreg : registry s !! t = Some d)
    (Hbase : d_base d = Some (base, off)) :
  link_base t base' off' s = Err AlreadyLinked s /\
  (d_base <$> registry (final_state (link_base t base' off' s)) !! t)
    = Some (Some (base, off)).
Proof.
  unfold link_base, bind, find_descriptor. rewrite Hreg, Hbase.
  split; [reflexivity |]. simpl. rewrite Hreg. simpl. rewrite Hbase. reflexivity.
Qed.

(** C9: unwrapping a handle as, or looking up an instance of, a type that
    was never registered fails with [UnregisteredType]. *)
Theorem unregistered_type_fails (s : state) (t : string) (h p : nat)
    (Hreg : registry s !! t = None) :
  unwrap_object t h s = Err UnregisteredType s /\
  find_object t p s = Err UnregisteredType s.
Proof. unfold unwrap_object, find_object, bind, find_descriptor. rewrite Hreg. auto. Qed.

(** C4: after [unreference_external] of a tracked instance, unwrapping
    its old handle gives null, converting the instance to script fails
    with [InstanceNotTracked], and the old handle is empty. *)
Theorem unreference_external_forgets (s s' : state) (t : string) (p : nat) (e : entry)
    (Hent : instances s !! (t, p) = Some e)
    (Hunref : unreference_external t p s = Ok tt s') :
  unwrap_object t (e_handle e) s' = Ok None s' /\
  find_object t p s' = Err InstanceNotTracked s' /\
  wrappers s' !! e_handle e = None.
Proof.
  unfold unreference_external, bind, find_descriptor in Hunref.
  destruct (registry s !! t) as [d|] eqn:Hreg; [|discriminate].
  rewrite Hent in Hunref. injection Hunref as <-.
  unfold unwrap_object, find_object, bind, find_descriptor.
  rewrite registry_drop_entry, Hreg. cbv beta iota.
  rewrite instances_drop_entry, wrappers_drop_entry, !lookup_delete_eq. auto.
Qed.

(* ------------------------------------------------------------------ *)
(** ** [destroy] *)

(** After [destroy] of [t], the table of [t] is empty. *)
Lemma table_of_after_destroy_all t s :
  table_of t (foldl release_entry s (table_of t s)) = [].
Proof.
  unfold table_of at 1. apply map_to_list_empty_iff, map_eq. intros [t' p].
  rewrite lookup_empty. apply map_lookup_filter_None.
  destruct (decide (t' = t)) as [->|Hne].
  - left. rewrite foldl_release_instances. case_decide as Hin; [done|].
    destruct (instances s !! (t, p)) as [e|] eqn:He; [|done].
    exfalso. apply Hin. apply list_elem_of_fmap.
    exists ((t, p), e). split; [done|].
    apply elem_of_map_to_list, map_lookup_filter_Some. split; [done | reflexivity].
  - right. intros x _ Hx. simpl in Hx. congruence.
Qed.

(** C7: [destroy] is idempotent: once a first call succeeded, a second
    call succeeds and leaves the state, and so the destructor log, exactly
    as it is. *)
Theorem destroy_all_idempotent (t : string) (s s1 : state)
    (Hfirst : destroy_all t s = Ok tt s1) :
  destroy_all t s1 = Ok tt s1 /\ dtor_log (final_state (destroy_all t s1)) = dtor_log s1.
Proof.
  unfold destroy_all, bind, find_descriptor, modify in *.
  destruct (registry s !! t) as [d|] eqn:Hreg; [|discriminate].
  injection Hfirst as <-.
  rewrite foldl_release_registry, Hreg, table_of_after_destroy_all. auto.
Qed.

(* ------------------------------------------------------------------ *)
(** ** Destruction accounting *)






















(* ------------------------------------------------------------------ *)
(** ** Member resolution with one linked base and one bound directly *)

Lemma mi_resolve tr n a :
  n ∈ mi_readable ++ mi_methods ->
  resolve (size (mi_registry tr)) (mi_registry tr) "C" n a =
  (fun bo : binding * nat =>
     (bo.1, match bo.2 with O => a | off => (a + off)%nat end)) <$> mi_resolution n.
Proof.
  intros Hn. unfold mi_readable, mi_methods in Hn. simpl in Hn.
  repeat (apply elem_of_cons in Hn as [->|Hn]; [destruct tr; reflexivity|]).
  by apply not_elem_of_nil in Hn.
Qed.

Lemma set_mem_same s : set_mem (mem s) s = s.
Proof. destruct s; reflexivity. Qed.

Lemma registry_set_mem m s : registry (set_mem m s) = registry s.
Proof. reflexivity. Qed.
Lemma wrappers_set_mem m s : wrappers (set_mem m s) = wrappers s.
Proof. reflexivity. Qed.
Lemma mem_set_mem m s : mem (set_mem m s) = m.
Proof. reflexivity. Qed.

Ltac in_list :=
  apply list_elem_of_In; simpl; repeat (first [left; reflexivity | right]).

Ltac mi_case Hreg Hw :=
  unfold get_member, call_member, set_member, resolve_member;
  rewrite Hw, Hreg, mi_resolve by (unfold mi_readable, mi_methods; in_list);
  unfold origin_slot; cbn -[insert read];
  unfold C_A, C_B, C_x, A_x, B_x; rewrite ?Nat.add_0_r, ?set_mem_same; reflexivity.

(** Reading a data member or property of a C object reads the word of
    the member's origin. *)
Lemma mi_read tr s h a n o :
  registry s = mi_registry tr -> wrappers s !! h = Some ("C", a) ->
  n ∈ mi_readable -> member_origin n = Some o ->
  get_member h n s = Ok (read (mem s) (a + origin_slot o)) s.
Proof.
  intros Hreg Hw Hn Ho. unfold mi_readable in Hn.
  repeat rewrite elem_of_cons in Hn. rewrite elem_of_nil in Hn.
  destruct_or! Hn; try contradiction; subst n; vm_compute in Ho; injection Ho as <-.
  all: mi_case Hreg Hw.
Qed.

Lemma mi_call tr s h a n o :
  registry s = mi_registry tr -> wrappers s !! h = Some ("C", a) ->
  n ∈ mi_methods -> member_origin n = Some o ->
  call_member h n [] s = Ok (read (mem s) (a + origin_slot o)) s.
Proof.
  intros Hreg Hw Hn Ho. unfold mi_methods in Hn.
  repeat rewrite elem_of_cons in Hn. rewrite elem_of_nil in Hn.
  destruct_or! Hn; try contradiction; subst n; vm_compute in Ho; injection Ho as <-.
  all: mi_case Hreg Hw.
Qed.

Lemma mi_write tr s h a n o v :
  registry s = mi_registry tr -> wrappers s !! h = Some ("C", a) ->
  n ∈ mi_writable -> member_origin n = Some o ->
  set_member h n v s = Ok tt (set_mem (<[(a + origin_slot o)%nat := v]> (mem s)) s).
Proof.
  intros Hreg Hw Hn Ho. unfold mi_writable in Hn.
  repeat rewrite elem_of_cons in Hn. rewrite elem_of_nil in Hn.
  destruct_or! Hn; try contradiction; subst n; vm_compute in Ho; injection Ho as <-.
  all: mi_case Hreg Hw.
Qed.

Lemma origin_slot_inj o1 o2 : origin_slot o1 = origin_slot o2 -> o1 = o2.
Proof. destruct o1, o2; vm_compute; congruence. Qed.

Lemma read_insert m k1 k2 v :
  read (<[k1 := v]> m) k2 = if decide (k1 = k2) then v else read m k2.
Proof.
  unfold read. case_decide as Hk.
  - subst. by rewrite lookup_insert_eq.
  - by rewrite lookup_insert_ne.
Qed.

(** C5: in [test_multiple_inheritance], with only B linked as C's base and
    A's members bound on C through A's own accessors, every member read
    through a C instance (fields, properties, methods) reads the storage of
    the type the member comes from, and writing a member changes only the
    storage of its own type: a later read of a member of another type (the
    same-named [x] and [z] of A, B and C included) still sees the old value,
    and a read of a member of the same type sees the written value. *)
Theorem multiple_inheritance_no_aliasing tr s h a
    (Hreg : registry s = mi_registry tr)
    (Hw : wrappers s !! h = Some ("C", a)) :
  (forall n o, n ∈ mi_readable -> member_origin n = Some o ->
     get_member h n s = Ok (read (mem s) (a + origin_slot o)) s) /\
  (forall n o, n ∈ mi_methods -> member_origin n = Some o ->
     call_member h n [] s = Ok (read (mem s) (a + origin_slot o)) s) /\
  (forall n1 n2 o1 o2 v, n1 ∈ mi_writable -> n2 ∈ mi_readable ->
     member_origin n1 = Some o1 -> member_origin n2 = Some o2 ->
     exists s', set_member h n1 v s = Ok tt s' /\
       get_member h n2 s' =
         Ok (if decide (o1 = o2) then v else read (mem s) (a + origin_slot o2)) s').
Proof.
  split; [|split].
  - intros n o. by apply (mi_read tr).
  - intros n o. by apply (mi_call tr).
  - intros n1 n2 o1 o2 v Hn1 Hn2 Ho1 Ho2.
    eexists. split. { by apply (mi_write tr s h a n1 o1 v). }
    rewrite (mi_read tr _ h a n2 o2); [|by rewrite registry_set_mem
      |by rewrite wrappers_set_mem|done|done].
    rewrite mem_set_mem, read_insert. f_equal.
    destruct (decide (o1 = o2)) as [->|Ho]; case_decide as Hk.
    + reflexivity.
    + exfalso. by apply Hk.
    + exfalso. apply Ho, origin_slot_inj. lia.
    + reflexivity.
Qed.

(* ------------------------------------------------------------------ *)
(** ** Wrapping round-trip *)

Lemma coherent_frame s s' :
  (forall t, is_Some (registry s !! t) -> is_Some (registry s' !! t)) ->
  instances s' = instances s -> wrappers s' = wrappers s ->
  next_handle s' = next_handle s ->
  coherent s -> coherent s'.
Proof.
  intros Hr Hi Hw Hn [Hc Hf]. split.
  - intros k e Hk. rewrite Hi in Hk. destruct (Hc k e Hk) as [H1 H2].
    rewrite Hw. split; [done|]. by apply Hr.
  - intros h Hh. rewrite Hw. apply Hf. lia.
Qed.

Lemma coherent_init : coherent init.
Proof. split; [apply map_Forall_empty | intros; apply lookup_empty]. Qed.

Lemma coherent_insert_registry s t d :
  coherent s -> coherent (set_registry (<[t := d]> (registry s)) s).
Proof.
  apply coherent_frame; try reflexivity.
  intros t' Ht'. simpl. destruct (decide (t = t')) as [->|Hne].
  - rewrite lookup_insert_eq. by eexists.
  - by rewrite lookup_insert_ne.
Qed.

Lemma coherent_set_heap s l rc lg : coherent s -> coherent (set_heap l rc lg s).
Proof. by apply coherent_frame. Qed.

Lemma coherent_set_mem s m : coherent s -> coherent (set_mem m s).
Proof. by apply coherent_frame. Qed.

Lemma coherent_set_reachable s rs : coherent s -> coherent (set_reachable rs s).
Proof. by apply coherent_frame. Qed.

Lemma coherent_trait_destroy tr owns p s :
  coherent s -> coherent (trait_destroy tr owns p s).
Proof.
  destruct (trait_destroy_heap tr owns p s) as (l & rc & lg & ->).
  apply coherent_set_heap.
Qed.

Lemma coherent_release_share p s : coherent s -> coherent (release_share p s).
Proof.
  unfold release_share. destruct (refs s !! p); [|done].
  case_decide; [apply coherent_set_heap | apply coherent_set_heap].
Qed.

Lemma coherent_drop_entry s k e :
  instances s !! k = Some e -> coherent s -> coherent (drop_entry k e s).
Proof.
  intros Hk [Hc Hf]. split.
  - intros k' e' Hk'. rewrite instances_drop_entry in Hk'.
    apply lookup_delete_Some in Hk' as [Hne Hk'].
    destruct (Hc k' e' Hk') as [Hw' Hr']. destruct (Hc k e Hk) as [Hw _].
    rewrite wrappers_drop_entry, registry_drop_entry. split; [|done].
    rewrite lookup_delete_ne; [done|].
    intros Heq. rewrite <- Heq in Hw'. congruence.
  - intros h Hh. rewrite wrappers_drop_entry, lookup_delete_None. right. by apply Hf.
Qed.

Lemma coherent_release_entry s ke :
  instances s !! ke.1 = Some ke.2 -> coherent s -> coherent (release_entry s ke).
Proof.
  intros Hk Hc. unfold release_entry. apply coherent_trait_destroy.
  by apply coherent_drop_entry.
Qed.

Lemma coherent_foldl_release L s :
  NoDup L.*1 -> (forall ke, ke ∈ L -> instances s !! ke.1 = Some ke.2) ->
  coherent s -> coherent (foldl release_entry s L).
Proof.
  revert s. induction L as [|ke L IH]; intros s Hnd HL Hc; simpl; [done|].
  apply NoDup_cons in Hnd as [Hnot Hnd].
  apply IH; [done| |].
  - intros ke' Hin. destruct (release_entry_frame s ke) as (_ & Hi & _).
    rewrite Hi, lookup_delete_ne.
    + apply HL. by apply elem_of_cons; right.
    + intros Heq. apply Hnot. rewrite Heq. apply list_elem_of_fmap. by exists ke'.
  - apply coherent_release_entry; [|done]. apply HL. by apply elem_of_cons; left.
Qed.

Lemma coherent_filter_release (P : (string * nat) * entry -> Prop)
    `{forall ke, Decision (P ke)} s :
  coherent s -> coherent (foldl release_entry s (map_to_list (filter P (instances s)))).
Proof.
  intros Hc. apply coherent_foldl_release; [apply NoDup_fst_map_to_list| |done].
  intros [k e] Hin. apply elem_of_map_to_list, map_lookup_filter_Some in Hin.
  by destruct Hin.
Qed.

Lemma coherent_alloc s cells p s' :
  alloc cells s = Ok p s' -> coherent s -> coherent s' /\ registry s' = registry s.
Proof.
  unfold alloc. intros [= _ <-] Hc. split; [|done].
  by apply (coherent_frame s).
Qed.

Lemma wrap_instance_coherent s t p strong owns h s1 :
  is_Some (registry s !! t) -> coherent s ->
  wrap_instance t p strong owns s = Ok h s1 ->
  coherent s1 /\ exists e, instances s1 !! (t, p) = Some e /\ e_handle e = h.
Proof.
  intros Ht [Hc Hf]. unfold wrap_instance.
  destruct (instances s !! (t, p)) as [e|] eqn:He.
  - intros [= <- <-]. split; [by split|]. by exists e.
  - intros [= <- <-].
    set (s2 := set_reachable _ _).
    assert (Hc2 : coherent s2 /\ exists e, instances s2 !! (t, p) = Some e /\ e_handle e = next_handle s).
    { split; [split|].
      - intros k e' Hk. simpl in Hk |- *.
        destruct (decide (k = (t, p))) as [->|Hne].
        + rewrite lookup_insert_eq in Hk. injection Hk as <-. simpl.
          by rewrite lookup_insert_eq.
        + rewrite lookup_insert_ne in Hk by congruence.
          destruct (Hc k e' Hk) as [Hw Hr]. split; [|done].
          rewrite lookup_insert_ne; [done|].
          intros Heq. rewrite (Hf (e_handle e')) in Hw; [discriminate|lia].
      - intros h' Hh'. simpl in Hh' |- *. rewrite lookup_insert_ne by lia.
        apply Hf. lia.
      - exists (mkEntry (next_handle s) strong owns). simpl.
        by rewrite lookup_insert_eq. }
    destruct (traits_of t s), owns; exact Hc2.
Qed.

Ltac find_cases t s :=
  unfold bind, find_descriptor; simpl;
  let d := fresh "d" in let Hd := fresh "Hd" in
  destruct (registry s !! t) as [d|] eqn:Hd; simpl; [|done].

Lemma coherent_update_descriptor s t d :
  coherent s -> coherent (final_state (update_descriptor t d s)).
Proof. apply coherent_insert_registry. Qed.

Lemma coherent_wrap_registered s t p strong owns :
  is_Some (registry s !! t) -> coherent s ->
  coherent (final_state (wrap_instance t p strong owns s)).
Proof.
  intros Ht Hc. destruct (wrap_instance t p strong owns s) as [h s1|e s1] eqn:Hw.
  - by apply (wrap_instance_coherent s t p strong owns h s1).
  - unfold wrap_instance in Hw. by destruct (instances s !! (t, p)).
Qed.

(** Every operation keeps the wrappers coherent. *)
Lemma coherent_step s s' : step s s' -> coherent s -> coherent s'.
Proof.
  intros [o ->] Hc. destruct o; simpl.
  - unfold register. destruct (registry s !! t); [done|].
    by apply coherent_insert_registry.
  - unfold bind_ctor. find_cases t s. by apply coherent_update_descriptor.
  - unfold bind_member. find_cases t s. by apply coherent_update_descriptor.
  - unfold link_base. find_cases t s. destruct (d_base d); [done|].
    find_cases base s. by apply coherent_update_descriptor.
  - unfold create_object. find_cases t s.
    destruct (d_ctor d) as [c|]; [|done]. destruct (c args) as [cells|]; [|done].
    apply coherent_wrap_registered; [simpl; rewrite Hd; by eexists|].
    by apply (coherent_frame s).
  - unfold reference_external. find_cases t s.
    apply coherent_wrap_registered; [|done]. rewrite Hd. by eexists.
  - unfold import_external. find_cases t s.
    apply coherent_wrap_registered; [|done]. rewrite Hd. by eexists.
  - unfold unreference_external. find_cases t s.
    destruct (instances s !! (t, p)) as [e|] eqn:He; [|done].
    by apply coherent_drop_entry.
  - unfold destroy_object. find_cases t s.
    destruct (instances s !! (t, p)) as [e|] eqn:He; [|done].
    by apply (coherent_release_entry s ((t, p), e)).
  - unfold destroy_all. find_cases t s. unfold modify, table_of. simpl.
    by apply coherent_filter_release.
  - unfold collector_pass, collector_victims. by apply coherent_filter_release.
  - by apply coherent_set_reachable.
  - by apply coherent_set_reachable.
  - unfold get_member. destruct (resolve_member h name s) as [[[c|off|g st|f] q]|]; simpl; try done;
      try by apply (coherent_frame s).
    destruct (g (mem s) q []) as [[m' v]|]; simpl; [by apply (coherent_frame s)|done].
  - unfold set_member. destruct (resolve_member h name s) as [[[c|off|g st|f] q]|]; simpl; try done;
      try by apply (coherent_frame s).
    destruct st as [st|]; [|done].
    destruct (st (mem s) q [v]) as [[m' v']|]; simpl; [by apply (coherent_frame s)|done].
  - unfold call_member. destruct (resolve_member h name s) as [[[c|off|g st|f] q]|]; simpl; try done;
      try by apply (coherent_frame s).
    destruct (f (mem s) q args) as [[m' v]|]; simpl; [by apply (coherent_frame s)|done].
  - unfold unwrap_object. find_cases t s. by destruct (wrappers s !! h) as [[t' p]|].
  - unfold find_object. find_cases t s. by destruct (instances s !! (t, p)).
  - unfold native_create, bind. destruct (alloc cells s) as [p s1|e s1] eqn:Ha;
      [|unfold alloc in Ha; discriminate].
    destruct (coherent_alloc s cells p s1 Ha Hc) as [Hc1 _].
    destruct tr; simpl; [done|]. unfold take_share. by apply coherent_set_heap.
  - unfold take_share. by apply coherent_set_heap.
  - by apply coherent_release_share.
Qed.

Lemma coherent_rtc s s' : rtc step s s' -> coherent s -> coherent s'.
Proof.
  induction 1 as [s|s s1 s2 Hst _ IH]; intros Hc; [done|].
  apply IH. by apply (coherent_step s).
Qed.

(** In a coherent state, an entry's handle unwraps to its instance and the
    instance converts back to that handle. *)
Lemma coherent_roundtrip s t p e :
  coherent s -> instances s !! (t, p) = Some e -> roundtrip t p (e_handle e) s.
Proof.
  intros [Hc _] He. destruct (Hc (t, p) e He) as [Hw [d Hd]]. simpl in Hd.
  unfold roundtrip, unwrap_object, find_object, bind, find_descriptor.
  rewrite Hd, Hw, He. split; [|done].
  destruct (size (registry s)); simpl; by rewrite decide_True.
Qed.

Lemma run_wrap_entry s w h s1 :
  coherent s -> run_wrap w s = Ok h s1 ->
  coherent s1 /\ exists e, instances s1 !! wrap_target w s = Some e /\ e_handle e = h.
Proof.
  intros Hc. destruct w as [t args|t p|t p]; simpl.
  - unfold create_object, bind, find_descriptor.
    destruct (registry s !! t) as [d|] eqn:Hd; [|discriminate].
    destruct (d_ctor d) as [c|]; [|discriminate].
    destruct (c args) as [cells|]; [|discriminate]. simpl.
    intros Hw. apply wrap_instance_coherent in Hw; [done| |].
    + simpl. rewrite Hd. by eexists.
    + by apply (coherent_frame s).
  - unfold reference_external, bind, find_descriptor.
    destruct (registry s !! t) as [d|] eqn:Hd; [|discriminate].
    apply wrap_instance_coherent; [by rewrite Hd|done].
  - unfold import_external, bind, find_descriptor.
    destruct (registry s !! t) as [d|] eqn:Hd; [|discriminate].
    apply wrap_instance_coherent; [by rewrite Hd|done].
Qed.

(** C1: in every state the registry can reach, an instance wrapped by
    [create_object], [reference_external] or [import_external] round-trips:
    its handle unwraps to exactly that instance and the instance converts
    back to exactly that handle, right after wrapping and in every later
    state, as long as its entry (with that handle) is not released. *)
Theorem wrap_roundtrip (s s1 : state) (w : wrap_call) (h : nat)
    (Hs : rtc step init s) (Hw : run_wrap w s = Ok h s1) :
  roundtrip (wrap_target w s).1 (wrap_target w s).2 h s1 /\
  forall s2, rtc step s1 s2 ->
    (exists e, instances s2 !! wrap_target w s = Some e /\ e_handle e = h) ->
    roundtrip (wrap_target w s).1 (wrap_target w s).2 h s2.
Proof.
  assert (Hc : coherent s) by (apply (coherent_rtc init); [done|apply coherent_init]).
  destruct (run_wrap_entry s w h s1 Hc Hw) as [Hc1 (e & He & <-)].
  destruct (wrap_target w s) as [t p]. simpl. split.
  - by apply coherent_roundtrip.
  - intros s2 Hs2 (e2 & He2 & Hh). rewrite <- Hh.
    apply coherent_roundtrip; [|done]. by apply (coherent_rtc s1).
Qed.

(* ------------------------------------------------------------------ *)
(** ** The properties on the states of the tests *)

Lemma register_twice_fails_witness :
  registry (xy_state raw_ptr_traits) !! "X" = Some (X_descr raw_ptr_traits) /\
  (register "X" raw_ptr_traits (xy_state raw_ptr_traits)
     = Err AlreadyRegistered (xy_state raw_ptr_traits) /\
   registry (final_state (register "X" raw_ptr_traits (xy_state raw_ptr_traits))) !! "X"
     = Some (X_descr raw_ptr_traits)).
Proof.
  assert (H : registry (xy_state raw_ptr_traits) !! "X" = Some (X_descr raw_ptr_traits))
    by (vm_compute; reflexivity).
  split; [exact H|]. apply register_twice_fails. exact H.
Defined.

Lemma link_base_twice_fails_witness :
  registry (xy_state raw_ptr_traits) !! "Y" = Some (Y_descr raw_ptr_traits) /\
  d_base (Y_descr raw_ptr_traits) = Some ("X", 0%nat) /\
  (link_base "Y" "X" 0 (xy_state raw_ptr_traits) = Err AlreadyLinked (xy_state raw_ptr_traits) /\
   (d_base <$> registry (final_state (link_base "Y" "X" 0 (xy_state raw_ptr_traits))) !! "Y")
     = Some (Some ("X", 0%nat))).
Proof.
  assert (H1 : registry (xy_state raw_ptr_traits) !! "Y" = Some (Y_descr raw_ptr_traits))
    by (vm_compute; reflexivity).
  assert (H2 : d_base (Y_descr raw_ptr_traits) = Some ("X", 0%nat))
    by (vm_compute; reflexivity).
  split; [exact H1|]. split; [exact H2|].
  exact (link_base_twice_fails (xy_state raw_ptr_traits) "Y" "X" "X" 0 0
           (Y_descr raw_ptr_traits) H1 H2).
Defined.

Lemma unregistered_type_fails_witness :
  registry (xy_state raw_ptr_traits) !! "Z" = None /\
  (unwrap_object "Z" 1 (xy_state raw_ptr_traits) = Err UnregisteredType (xy_state raw_ptr_traits) /\
   find_object "Z" 1 (xy_state raw_ptr_traits) = Err UnregisteredType (xy_state raw_ptr_traits)).
Proof.
  assert (H : registry (xy_state raw_ptr_traits) !! "Z" = None) by (vm_compute; reflexivity).
  split; [exact H|]. exact (unregistered_type_fails (xy_state raw_ptr_traits) "Z" 1 1 H).
Defined.

Lemma unreference_external_forgets_witness :
  instances (referenced_x_state raw_ptr_traits) !! ("X", 1%nat) = Some (mkEntry 1 true false) /\
  unreference_external "X" 1 (referenced_x_state raw_ptr_traits)
    = Ok tt (final_state (unreference_external "X" 1 (referenced_x_state raw_ptr_traits))) /\
  (unwrap_object "X" 1
     (final_state (unreference_external "X" 1 (referenced_x_state raw_ptr_traits)))
   = Ok None (final_state (unreference_external "X" 1 (referenced_x_state raw_ptr_traits))) /\
   find_object "X" 1
     (final_state (unreference_external "X" 1 (referenced_x_state raw_ptr_traits)))
   = Err InstanceNotTracked
       (final_state (unreference_external "X" 1 (referenced_x_state raw_ptr_traits))) /\
   wrappers (final_state (unreference_external "X" 1 (referenced_x_state raw_ptr_traits)))
     !! 1%nat = None).
Proof.
  assert (H1 : instances (referenced_x_state raw_ptr_traits) !! ("X", 1%nat)
               = Some (mkEntry 1 true false)) by (vm_compute; reflexivity).
  assert (H2 : unreference_external "X" 1 (referenced_x_state raw_ptr_traits)
    = Ok tt (final_state (unreference_external "X" 1 (referenced_x_state raw_ptr_traits))))
    by (vm_compute; reflexivity).
  split; [exact H1|]. split; [exact H2|].
  exact (unreference_external_forgets _ _ "X" 1 (mkEntry 1 true false) H1 H2).
Defined.

Lemma destroy_all_idempotent_witness :
  destroy_all "X" (dropped_x_state raw_ptr_traits)
    = Ok tt (final_state (destroy_all "X" (dropped_x_state raw_ptr_traits))) /\
  (destroy_all "X" (final_state (destroy_all "X" (dropped_x_state raw_ptr_traits)))
     = Ok tt (final_state (destroy_all "X" (dropped_x_state raw_ptr_traits))) /\
   dtor_log (final_state (destroy_all "X"
     (final_state (destroy_all "X" (dropped_x_state raw_ptr_traits)))))
     = dtor_log (final_state (destroy_all "X" (dropped_x_state raw_ptr_traits)))).
Proof.
  assert (H : destroy_all "X" (dropped_x_state raw_ptr_traits)
    = Ok tt (final_state (destroy_all "X" (dropped_x_state raw_ptr_traits))))
    by (vm_compute; reflexivity).
  split; [exact H|]. exact (destroy_all_idempotent "X" _ _ H).
Defined.




Lemma multiple_inheritance_no_aliasing_witness :
  (registry (c_object_state raw_ptr_traits) = mi_registry raw_ptr_traits /\
   wrappers (c_object_state raw_ptr_traits) !! 1%nat = Some ("C", 1%nat)) /\
  (exists s', set_member 1 "xA" 10 (c_object_state raw_ptr_traits) = Ok tt s' /\
     get_member 1 "xB" s' = Ok (read (mem (c_object_state raw_ptr_traits)) (1 + origin_slot FromB)) s').
Proof.
  assert (H1 : registry (c_object_state raw_ptr_traits) = mi_registry raw_ptr_traits)
    by (vm_compute; reflexivity).
  assert (H2 : wrappers (c_object_state raw_ptr_traits) !! 1%nat = Some ("C", 1%nat))
    by (vm_compute; reflexivity).
  split; [exact (conj H1 H2)|].
  destruct (multiple_inheritance_no_aliasing raw_ptr_traits _ 1 1 H1 H2) as (_ & _ & H).
  exact (H "xA" "xB" FromA FromB 10 ltac:(vm_compute; left)
           ltac:(vm_compute; right; left) eq_refl eq_refl).
Defined.

Lemma wrap_roundtrip_witness :
  (rtc step init registered_x_state /\
   run_wrap (wrap_create "X" []) registered_x_state
     = Ok 1%nat (final_state (run_wrap (wrap_create "X" []) registered_x_state))) /\
  roundtrip "X" 1 1 (final_state (run_wrap (wrap_create "X" []) registered_x_state)).
Proof.
  assert (H1 : rtc step init registered_x_state).
  { eapply rtc_l; [exists (op_register "X" raw_ptr_traits); reflexivity|].
    eapply rtc_l; [exists (op_bind_ctor "X" create_X); reflexivity|].
    apply rtc_refl. }
  assert (H2 : run_wrap (wrap_create "X" []) registered_x_state
     = Ok 1%nat (final_state (run_wrap (wrap_create "X" []) registered_x_state)))
    by (vm_compute; reflexivity).
  split; [exact (conj H1 H2)|].
  exact (proj1 (wrap_roundtrip _ _ (wrap_create "X" []) 1 H1 H2)).
Defined.

(* ------------------------------------------------------------------ *)
(** ** The members of X through X and Y objects *)

Lemma find_binding_app n L1 L2 b :
  find_binding n L1 = Some b -> find_binding n (L1 ++ L2) = Some b.
Proof.
  induction L1 as [|[n' b'] L1 IH]; simpl; [discriminate|].
  case_decide; [done|]. apply IH.
Qed.

Lemma find_binding_name n L b : find_binding n L = Some b -> n ∈ L.*1.
Proof.
  induction L as [|[n' b'] L IH]; simpl; [discriminate|].
  case_decide as Hn; intros Hf; apply elem_of_cons; [left; done|right; by apply IH].
Qed.

Lemma size_lookup_ne_0 {V} (m : gmap string V) k v : m !! k = Some v -> size m <> 0%nat.
Proof. intros Hk H0. apply map_size_empty_iff in H0. subst. by rewrite lookup_empty in Hk. Qed.

(** Every member of [bind_X] resolves, on an X or Y object, to its X
    binding with [this] the X object. *)
Lemma X_resolve s h p n b :
  X_registered s -> X_object s h p -> find_binding n X_bindings = Some b ->
  resolve_member h n s = Some (b, p).
Proof.
  intros (d & Hd & [L HL]) Hobj Hb.
  assert (HdX : find_binding n (d_bindings d) = Some b)
    by (rewrite HL; by apply find_binding_app).
  unfold resolve_member. destruct Hobj as [Hw | (Hw & dy & Hdy & Hbase & Hnone)]; rewrite Hw.
  - destruct (size (registry s)); simpl; by rewrite Hd, HdX.
  - destruct (size (registry s)) as [|f] eqn:Hsz;
      [by apply size_lookup_ne_0 in Hdy|].
    simpl. rewrite Hdy.
    rewrite (proj1 (Forall_forall _ _) Hnone n (find_binding_name _ _ _ Hb)), Hbase.
    destruct f; simpl; rewrite Hd, HdX, Nat.add_0_r; reflexivity.
Qed.

Ltac X_member Hreg Hobj :=
  unfold get_member, set_member, call_member;
  erewrite (X_resolve _ _ _ _ _ Hreg Hobj) by reflexivity;
  cbn -[insert read]; unfold Xbase_var; rewrite ?Nat.add_0_r, ?set_mem_same.

(** Reading X's members of an X, or of a Y through [inherit<X>()]: [konst]
    is 99, [var], [rprop], [wprop] and [wprop2] all read the object's
    [var]; nothing changes. *)
Theorem X_member_reads s h p :
  X_registered s -> X_object s h p ->
  get_member h "konst" s = Ok 99 s /\
  forall n, n ∈ ["var"; "rprop"; "wprop"; "wprop2"] ->
    get_member h n s = Ok (read (mem s) p) s.
Proof.
  intros Hreg Hobj. split; [X_member Hreg Hobj; reflexivity|].
  intros n Hn. repeat rewrite elem_of_cons in Hn. rewrite elem_of_nil in Hn.
  destruct_or! Hn; try contradiction; subst n; X_member Hreg Hobj; reflexivity.
Qed.

(** Writing X's members: [var], [wprop] and [wprop2] store the value in
    the object's [var] and nothing else; a write to the constant [konst]
    or to the read-only [rprop] is ignored. *)
Theorem X_member_writes s h p v :
  X_registered s -> X_object s h p ->
  (forall n, n ∈ ["var"; "wprop"; "wprop2"] ->
     set_member h n v s = Ok tt (set_mem (<[p := v]> (mem s)) s)) /\
  (forall n, n ∈ ["konst"; "rprop"] -> set_member h n v s = Ok tt s).
Proof.
  intros Hreg Hobj. split; intros n Hn;
    repeat rewrite elem_of_cons in Hn; rewrite elem_of_nil in Hn;
    destruct_or! Hn; try contradiction; subst n; X_member Hreg Hobj; reflexivity.
Qed.


Lemma X_registered_set_mem m s : X_registered s -> X_registered (set_mem m s).
Proof. intros H. exact H. Qed.

Lemma X_object_set_mem m s h p : X_object s h p -> X_object (set_mem m s) h p.
Proof. intros H. exact H. Qed.

(** A value written through [var], [wprop] or [wprop2] of an X object is
    what [var], [rprop], [wprop] and [wprop2] then read: the four members
    share the one [var] of the object. *)
Theorem X_member_write_read s h p v n n' :
  X_registered s -> X_object s h p ->
  n ∈ ["var"; "wprop"; "wprop2"] -> n' ∈ ["var"; "rprop"; "wprop"; "wprop2"] ->
  (set_member h n v ;;; get_member h n') s = Ok v (set_mem (<[p := v]> (mem s)) s).
Proof.
  intros Hreg Hobj Hn Hn'.
  pose proof (X_registered_set_mem (<[p := v]> (mem s)) s Hreg) as Hreg'.
  pose proof (X_object_set_mem (<[p := v]> (mem s)) s h p Hobj) as Hobj'.
  repeat rewrite elem_of_cons in Hn. rewrite elem_of_nil in Hn.
  repeat rewrite elem_of_cons in Hn'. rewrite elem_of_nil in Hn'.
  unfold bind, get_member, set_member.
  destruct_or! Hn; try contradiction; subst n;
    (erewrite (X_resolve _ _ _ _ _ Hreg Hobj) by reflexivity;
     cbn -[insert read set_mem]; unfold Xbase_var; rewrite ?Nat.add_0_r, ?set_mem_same;
     destruct_or! Hn'; try contradiction; subst n';
     erewrite (X_resolve _ _ _ _ _ Hreg' Hobj') by reflexivity;
     cbn -[insert read set_mem]; unfold Xbase_var; rewrite ?Nat.add_0_r, ?set_mem_same;
     unfold read; simpl; rewrite lookup_insert_eq; reflexivity).
Qed.

(* ------------------------------------------------------------------ *)
(** ** Constructing X and Y from script *)

Lemma create_object_alloc t args s d c cells :
  registry s !! t = Some d -> d_ctor d = Some c -> c args = Some cells ->
  create_object t args s =
  wrap_instance t (next_ptr s) false true
    (mkState (registry s) (instances s) (wrappers s) (reachable s)
       (write_cells (mem s) (next_ptr s) cells) ({[next_ptr s]} ∪ live s) (refs s)
       (dtor_log s) (next_ptr s + S (length cells))%nat (next_handle s)).
Proof.
  intros Hd Hc Hcells. unfold create_object, bind, find_descriptor, alloc.
  rewrite Hd. cbv beta iota. rewrite Hc, Hcells. reflexivity.
Qed.

Lemma wrap_instance_mem t p strong owns s h s' :
  wrap_instance t p strong owns s = Ok h s' -> mem s' = mem s.
Proof.
  unfold wrap_instance. destruct (instances s !! (t, p)); intros [= <- <-]; [done|].
  by destruct (traits_of t s), owns.
Qed.

(** The object [new T(args)] makes, in a reachable state: its handle holds
    [T] at a fresh address whose words the constructor gave. *)
Lemma create_object_word s t args d c x h s' :
  rtc step init s -> registry s !! t = Some d -> d_ctor d = Some c ->
  c args = Some [x] -> create_object t args s = Ok h s' ->
  exists p, wrappers s' !! h = Some (t, p) /\ read (mem s') p = x.
Proof.
  intros Hs Hd Hc Hcells Hcr.
  assert (Hc0 : coherent s) by (apply (coherent_rtc init); [done|apply coherent_init]).
  destruct (run_wrap_entry s (wrap_create t args) h s' Hc0 Hcr) as [[Hcoh _] (e & He & <-)].
  exists (next_ptr s). split; [apply (Hcoh _ _ He)|].
  rewrite (create_object_alloc t args s d c [x] Hd Hc Hcells) in Hcr.
  apply wrap_instance_mem in Hcr. rewrite Hcr. unfold read. simpl.
  by rewrite lookup_insert_eq.
Qed.

(** [new Y(x)] (the [ctor<int>()] of Y) makes a Y whose [var] is [x]; Y's
    constructor takes exactly one argument, and [new Y] with any other
    number of arguments fails with a conversion error and changes nothing.
    [new X(...)] ignores its arguments ([create_X]) and makes an X whose
    [var] is 1. *)
Theorem new_objects_var s dx dy :
  rtc step init s ->
  registry s !! "X" = Some dx -> d_ctor dx = Some create_X ->
  registry s !! "Y" = Some dy -> d_ctor dy = Some Y_ctor ->
  (forall x h s', create_object "Y" [x] s = Ok h s' ->
     exists p, wrappers s' !! h = Some ("Y", p) /\ read (mem s') p = x) /\
  (forall args, length args <> 1%nat -> create_object "Y" args s = Err ConversionError s) /\
  (forall args h s', create_object "X" args s = Ok h s' ->
     exists p, wrappers s' !! h = Some ("X", p) /\ read (mem s') p = 1).
Proof.
  intros Hs Hdx Hcx Hdy Hcy. split; [|split].
  - intros x h s' Hcr. by apply (create_object_word s "Y" [x] dy Y_ctor x h s').
  - intros args Hlen. unfold create_object, bind, find_descriptor.
    rewrite Hdy. cbv beta iota. rewrite Hcy.
    destruct args as [|a [|b rest]]; [reflexivity| simpl in Hlen; lia | reflexivity].
  - intros args h s' Hcr. by apply (create_object_word s "X" args dx create_X 1 h s').
Qed.

(* ------------------------------------------------------------------ *)
(** ** [extern_fun] *)


(* ------------------------------------------------------------------ *)
(** ** The fixtures on the states of the tests *)

Lemma run_ops_rtc os s : rtc step s (run_ops os s).
Proof.
  revert s. induction os as [|o os IH]; intros s; simpl; [apply rtc_refl|].
  eapply rtc_l; [exists o; reflexivity|apply IH].
Qed.

Lemma xy_state_reachable tr : rtc step init (xy_state tr).
Proof.
  replace (xy_state tr) with (run_ops (setup_XY_ops tr) init)
    by (destruct tr; vm_compute; reflexivity).
  apply run_ops_rtc.
Qed.

Lemma xy_objects_X_registered : X_registered xy_objects_state.
Proof.
  exists (X_descr raw_ptr_traits). split; [vm_compute; reflexivity|].
  exists []. rewrite app_nil_r. vm_compute; reflexivity.
Qed.

Lemma xy_objects_y_is_X : X_object xy_objects_state 2 3%nat.
Proof.
  right. split; [vm_compute; reflexivity|].
  exists (Y_descr raw_ptr_traits). split; [vm_compute; reflexivity|].
  split; [vm_compute; reflexivity|]. vm_compute. repeat constructor.
Qed.

Lemma xy_objects_x_is_X : X_object xy_objects_state 1 1.
Proof. left. vm_compute. reflexivity. Qed.

Lemma new_objects_var_witness :
  (rtc step init (xy_state raw_ptr_traits) /\
   registry (xy_state raw_ptr_traits) !! "X" = Some (X_descr raw_ptr_traits) /\
   d_ctor (X_descr raw_ptr_traits) = Some create_X /\
   registry (xy_state raw_ptr_traits) !! "Y" = Some (Y_descr raw_ptr_traits) /\
   d_ctor (Y_descr raw_ptr_traits) = Some Y_ctor) /\
  ((forall x h s', create_object "Y" [x] (xy_state raw_ptr_traits) = Ok h s' ->
     exists p, wrappers s' !! h = Some ("Y", p) /\ read (mem s') p = x) /\
   (forall args, length args <> 1%nat ->
     create_object "Y" args (xy_state raw_ptr_traits) = Err ConversionError (xy_state raw_ptr_traits)) /\
   (forall args h s', create_object "X" args (xy_state raw_ptr_traits) = Ok h s' ->
     exists p, wrappers s' !! h = Some ("X", p) /\ read (mem s') p = 1)).
Proof.
  assert (H1 := xy_state_reachable raw_ptr_traits).
  assert (H2 : registry (xy_state raw_ptr_traits) !! "X" = Some (X_descr raw_ptr_traits))
    by (vm_compute; reflexivity).
  assert (H3 : d_ctor (X_descr raw_ptr_traits) = Some create_X) by (vm_compute; reflexivity).
  assert (H4 : registry (xy_state raw_ptr_traits) !! "Y" = Some (Y_descr raw_ptr_traits))
    by (vm_compute; reflexivity).
  assert (H5 : d_ctor (Y_descr raw_ptr_traits) = Some Y_ctor) by (vm_compute; reflexivity).
  split; [exact (conj H1 (conj H2 (conj H3 (conj H4 H5))))|].
  exact (new_objects_var _ _ _ H1 H2 H3 H4 H5).
Defined.

Lemma X_member_writes_witness :
  (X_registered xy_objects_state /\ X_object xy_objects_state 1 1) /\
  ((forall n, n ∈ ["var"; "wprop"; "wprop2"] ->
     set_member 1 n 7 xy_objects_state
     = Ok tt (set_mem (<[1%nat := 7]> (mem xy_objects_state)) xy_objects_state)) /\
   (forall n, n ∈ ["konst"; "rprop"] -> set_member 1 n 7 xy_objects_state = Ok tt xy_objects_state)).
Proof.
  split; [exact (conj xy_objects_X_registered xy_objects_x_is_X)|].
  exact (X_member_writes xy_objects_state 1 1 7 xy_objects_X_registered xy_objects_x_is_X).
Defined.



Lemma X_member_write_read_witness :
  (X_registered xy_objects_state /\ X_object xy_objects_state 2 3 /\
   "wprop2" ∈ ["var"; "wprop"; "wprop2"] /\ "rprop" ∈ ["var"; "rprop"; "wprop"; "wprop2"]) /\
  (set_member 2 "wprop2" 7 ;;; get_member 2 "rprop") xy_objects_state
  = Ok 7 (set_mem (<[3%nat := 7]> (mem xy_objects_state)) xy_objects_state).
Proof.
  assert (H3 : "wprop2" ∈ ["var"; "wprop"; "wprop2"])
    by (apply (bool_decide_unpack _); vm_compute; reflexivity).
  assert (H4 : "rprop" ∈ ["var"; "rprop"; "wprop"; "wprop2"])
    by (apply (bool_decide_unpack _); vm_compute; reflexivity).
  split; [exact (conj xy_objects_X_registered (conj xy_objects_y_is_X (conj H3 H4)))|].
  exact (X_member_write_read xy_objects_state 2 3 7 "wprop2" "rprop"
           xy_objects_X_registered xy_objects_y_is_X H3 H4).
Defined.
